(** * bull-board-docker: a shallow embedding of the configuration glue

    The repository wires an Express server, a Redis client and the
    bull-board dashboard together.  Its own code is configuration
    handling, so the embedding is a small model of the JavaScript values
    that flow through it (objects as finite maps, object literals with
    spread, truthiness, [&&] and [||]) and, on top of it, one definition
    per function of the sources:

    - [Redis]: [parseDSNToSentinels] and [redisConfig] of [src/redis.js];
    - [Index]: the route wiring and the [/healthcheck] handler of
      [src/index.js];
    - [Config], [Bull], [Login]: the modules [src/config.js], [src/bull.js]
      and [src/login.js], which are only known through their unit tests and
      the specification. *)

From stdpp Require Import gmap strings list pretty.
From Stdlib Require Import ZArith Ascii String.

#[local] Set Warnings "-register-all".
#[local] Open Scope string_scope.
#[local] Open Scope Z_scope.

(** ** JavaScript values *)

Module JS.

(** Numbers are the integers and [NaN]: every number this program builds
    comes out of [Number.parseInt], and an integer of magnitude at most
    [2^53] is its own double.  Objects are finite maps from property names
    to values; a property bound to [undefined] is a key of the map, an
    absent property is not. *)
Inductive value : Type :=
  | VUndefined
  | VNull
  | VBool (b : bool)
  | VNaN
  | VNum (n : Z)
  | VStr (s : string)
  | VArr (xs : list value)
  | VObj (o : gmap string value).

(** [ToBoolean]. *)
Definition truthy (v : value) : bool :=
  match v with
  | VUndefined | VNull | VNaN => false
  | VBool b => b
  | VNum n => negb (n =? 0)
  | VStr s => negb (String.eqb s EmptyString)
  | VArr _ | VObj _ => true
  end.

(** [a && b] and [a || b], on values that are already evaluated. *)
Definition js_and (a b : value) : value := if truthy a then b else a.
Definition js_or (a b : value) : value := if truthy a then a else b.

(** [v === "s"] for a string literal [s]. *)
Definition strict_eq_str (v : value) (s : string) : bool :=
  match v with
  | VStr t => String.eqb t s
  | _ => false
  end.

(** [o.k] on an object used as a record: [undefined] when [k] is absent. *)
Definition get (o : gmap string value) (k : string) : value :=
  default VUndefined (o !! k).

(** [v.k] for a truthy [v]; a primitive has no own property named [k]
    (the program only reads [message] this way). *)
Definition get_prop (v : value) (k : string) : value :=
  match v with
  | VObj o => get o k
  | _ => VUndefined
  end.

(** Own enumerable properties of an indexed value: ["0"], ["1"], ... *)
Fixpoint indexed (i : nat) (xs : list value) (acc : gmap string value)
  : gmap string value :=
  match xs with
  | [] => acc
  | x :: xs' => indexed (S i) xs' (<[pretty i := x]> acc)
  end.

Fixpoint chars (s : string) : list value :=
  match s with
  | EmptyString => []
  | String c s' => VStr (String c EmptyString) :: chars s'
  end.

(** [{...acc, ...v}]: the own enumerable properties of [v] overwrite those
    of [acc]; [undefined], [null], booleans and numbers have none. *)
Definition spread_into (acc : gmap string value) (v : value)
  : gmap string value :=
  match v with
  | VObj o => o ∪ acc
  | VArr xs => indexed 0 xs acc
  | VStr s => indexed 0 (chars s) acc
  | VUndefined | VNull | VBool _ | VNaN | VNum _ => acc
  end.

(** The members of an object literal, in source order. *)
Inductive member : Type :=
  | Field (k : string) (v : value)
  | Spread (v : value).

Definition add_member (acc : gmap string value) (m : member)
  : gmap string value :=
  match m with
  | Field k v => <[k := v]> acc
  | Spread v => spread_into acc v
  end.

Definition obj_lit (ms : list member) : gmap string value :=
  foldl add_member ∅ ms.

(** Exceptions, and computations that may throw. *)
Inductive exn : Type :=
  | TypeError (msg : string)
  | Error (msg : string).

Inductive completion (A : Type) : Type :=
  | Normal (a : A)
  | Throw (e : exn).
Arguments Normal {A} a.
Arguments Throw {A} e.

#[global] Instance completion_ret : MRet completion := @Normal.

#[global] Instance completion_bind : MBind completion := λ A B k c,
  match c with
  | Normal a => k a
  | Throw e => Throw e
  end.

End JS.

Import JS.

(** ** Strings: [split] and [Number.parseInt] *)

Module Str.

(** [s.split(sep)] where every match of [sep] is one character: the pieces
    between the separators, in order; [n] separators give [n + 1] pieces,
    so the result is never empty.  Strings are sequences of 8-bit
    characters. *)
Fixpoint split (sep : ascii → bool) (s : string) : list string :=
  match s with
  | EmptyString => [EmptyString]
  | String c s' =>
      if sep c then EmptyString :: split sep s'
      else match split sep s' with
           | [] => [String c EmptyString]
           | w :: ws => String c w :: ws
           end
  end.

Definition is_char (c : ascii) : ascii → bool := Ascii.eqb c.

(** [StrWhiteSpaceChar], the 8-bit ones: TAB, LF, VT, FF, CR, SP and
    NBSP. *)
Definition is_white (c : ascii) : bool :=
  let n := nat_of_ascii c in
  ((9 <=? n) && (n <=? 13))%nat || (n =? 32)%nat || (n =? 160)%nat.

Fixpoint trim_start (s : string) : string :=
  match s with
  | EmptyString => EmptyString
  | String c s' => if is_white c then trim_start s' else s
  end.

(** The value of a character as a digit: [0-9], then [a-z] or [A-Z] for
    ten to thirty-five. *)
Definition digit_value (c : ascii) : option Z :=
  let n := Z.of_nat (nat_of_ascii c) in
  if (48 <=? n) && (n <=? 57) then Some (n - 48)
  else if (97 <=? n) && (n <=? 122) then Some (n - 87)
  else if (65 <=? n) && (n <=? 90) then Some (n - 55)
  else None.

(** The longest prefix of radix-[R] digits, read as a number; [acc] is
    [None] until a digit has been read. *)
Fixpoint parse_digits (R : Z) (acc : option Z) (s : string) : option Z :=
  match s with
  | EmptyString => acc
  | String c s' =>
      match digit_value c with
      | Some d =>
          if d <? R then parse_digits R (Some (R * default 0 acc + d)) s'
          else acc
      | None => acc
      end
  end.

Definition strip_sign (s : string) : Z * string :=
  match s with
  | String "-" r => (-1, r)
  | String "+" r => (1, r)
  | _ => (1, s)
  end.

Definition strip_hex_prefix (s : string) : Z * string :=
  match s with
  | String "0" (String "x" r) => (16, r)
  | String "0" (String "X" r) => (16, r)
  | _ => (10, s)
  end.

(** [Number.parseInt(arg)] with no radix, for an argument that is a string
    or [undefined] ([None]); [undefined] is first turned into the string
    ["undefined"].  The result is exact, that is, it is the JavaScript
    number whenever its magnitude is at most [2^53]. *)
Definition Number_parseInt (arg : option string) : value :=
  let inputString := default "undefined" arg in
  let '(sign, s1) := strip_sign (trim_start inputString) in
  let '(R, s2) := strip_hex_prefix s1 in
  match parse_digits R None s2 with
  | None => VNaN
  | Some mathInt => VNum (sign * mathInt)
  end.

End Str.

(** ** [src/redis.js] *)

Module Redis.

Definition is_dsn_separator (c : ascii) : bool :=
  Ascii.eqb c "," || Ascii.eqb c ";".

(** One element of [hostChain.map(...)]: [host.split(':')[0]] always
    exists, [host.split(':')[1]] is [undefined] when the entry has no
    colon. *)
Definition sentinel_of_entry (host : string) : value :=
  let parts := Str.split (Str.is_char ":") host in
  VObj (obj_lit
    [ Field "host" (from_option VStr VUndefined (parts !! 0%nat));
      Field "port" (Str.Number_parseInt (parts !! 1%nat)) ]).

(** [parseDSNToSentinels(dsn)]: [dsn.split] is a method of strings only,
    any other value makes the call throw. *)
Definition parseDSNToSentinels (dsn : value) : completion value :=
  match dsn with
  | VStr s =>
      let hostChain := Str.split is_dsn_separator s in
      Normal (VArr (map sentinel_of_entry hostChain))
  | _ => Throw (TypeError "dsn.split is not a function")
  end.

(** The idiom [...(config.SRC && { key: config.SRC })]. *)
Definition optional (config : gmap string value) (src key : string)
  : member :=
  Spread (js_and (get config src) (VObj (obj_lit [Field key (get config src)]))).

(** The operand of the first spread of [redisConfig.redis]:
    [config.SENTINEL_HOSTS && { sentinels: ..., ... }].  The object literal
    is only evaluated, and [parseDSNToSentinels] only called, when
    [SENTINEL_HOSTS] is truthy. *)
Definition sentinel_options (config : gmap string value)
  : completion value :=
  if truthy (get config "SENTINEL_HOSTS") then
    sentinels ← parseDSNToSentinels (get config "SENTINEL_HOSTS");
    mret (VObj (obj_lit
      [ Field "sentinels" sentinels;
        Field "name" (get config "SENTINEL_NAME");
        Field "role" (get config "SENTINEL_ROLE");
        Field "maxRetriesPerRequest"
          (js_or (get config "MAX_RETRIES_PER_REQUEST") VNull);
        optional config "SENTINEL_USERNAME" "sentinelUsername";
        optional config "SENTINEL_PASSWORD" "sentinelPassword";
        optional config "SENTINEL_COMMAND_TIMEOUT" "sentinelCommandTimeout";
        Field "enableTLSForSentinelMode" (get config "SENTINEL_TLS_ENABLED");
        Field "updateSentinels" (get config "SENTINEL_UPDATE");
        Field "sentinelMaxConnections" (get config "SENTINEL_MAX_CONNECTIONS");
        Field "failoverDetector" (get config "SENTINEL_FAILOVER_DETECTOR") ]))
  else mret (get config "SENTINEL_HOSTS").

(** The operand of the second spread:
    [!config.SENTINEL_HOSTS && { port: ..., host: ..., family: ... }]. *)
Definition direct_options (config : gmap string value) : value :=
  js_and (VBool (negb (truthy (get config "SENTINEL_HOSTS"))))
    (VObj (obj_lit
      [ Field "port" (get config "REDIS_PORT");
        Field "host" (get config "REDIS_HOST");
        Field "family" (get config "REDIS_FAMILY") ])).

(** [redisConfig.redis], the options handed to ioredis. *)
Definition redis_options (config : gmap string value)
  : completion (gmap string value) :=
  sentinel ← sentinel_options config;
  mret (obj_lit
    [ Spread sentinel;
      Spread (direct_options config);
      Field "db" (get config "REDIS_DB");
      optional config "REDIS_USER" "username";
      optional config "REDIS_PASSWORD" "password";
      Field "tls" (VBool (strict_eq_str (get config "REDIS_USE_TLS") "true"));
      optional config "REDIS_COMMAND_TIMEOUT" "commandTimeout";
      optional config "REDIS_SOCKET_TIMEOUT" "socketTimeout";
      optional config "REDIS_CONNECT_TIMEOUT" "connectTimeout";
      Field "keepAlive" (get config "REDIS_KEEP_ALIVE");
      Field "noDelay" (get config "REDIS_NO_DELAY");
      optional config "REDIS_CONNECTION_NAME" "connectionName";
      Field "autoResubscribe" (get config "REDIS_AUTO_RESUBSCRIBE");
      Field "autoResendUnfulfilledCommands"
        (get config "REDIS_AUTO_RESEND_UNFULFILLED");
      Field "enableOfflineQueue" (get config "REDIS_ENABLE_OFFLINE_QUEUE");
      Field "enableReadyCheck" (get config "REDIS_ENABLE_READY_CHECK") ]).

Definition redisConfig (config : gmap string value) : completion value :=
  redis ← redis_options config;
  mret (VObj (obj_lit [Field "redis" (VObj redis)])).

End Redis.

(** ** [src/index.js] *)

Module Index.

(** The mounts of lines [if (config.AUTH_ENABLED) ... else ...]. *)
Inductive handler : Type :=
  | AuthRouter
  | EnsureLoggedIn (redirectTo : value)
  | BullRouter.

Definition auth_routes (config : gmap string value)
  : list (value * list handler) :=
  if truthy (get config "AUTH_ENABLED") then
    [ (get config "LOGIN_PAGE", [AuthRouter]);
      (get config "HOME_PAGE",
        [EnsureLoggedIn (get config "LOGIN_PAGE"); BullRouter]) ]
  else [ (get config "HOME_PAGE", [BullRouter]) ].

(** How the promise of [client.ping()] settles. *)
Inductive settled : Type :=
  | Resolved (v : value)
  | Rejected (reason : value).

(** What the handler acts on: the [console.error] output and the response
    object, with the status code set by [res.status] and the body sent by
    [res.json]. *)
Record world : Type := {
  console_error : list value;
  statusCode : Z;
  sent : option value;
}.

(** The [let] variables of the handler. *)
Record locals : Type := {
  status : value;
  redisStatus : value;
  redisError : value;
}.

Definition initial_locals : locals :=
  {| status := VStr "ok"; redisStatus := VUndefined; redisError := VUndefined |}.

(** The [try { ... } catch (err) { ... }] statement. *)
Definition try_ping (ping : settled) (l : locals) (w : world)
  : locals * world :=
  match ping with
  | Resolved v =>
      if strict_eq_str v "PONG" then
        ({| status := status l; redisStatus := VStr "up";
            redisError := redisError l |}, w)
      else
        ({| status := VStr "error"; redisStatus := VStr "down";
            redisError := redisError l |}, w)
  | Rejected err =>
      ({| status := VStr "error"; redisStatus := redisStatus l;
          redisError := err |},
       {| console_error := console_error w ++ [err];
          statusCode := statusCode w; sent := sent w |})
  end.

Definition health_body (l : locals) : value :=
  VObj (obj_lit
    [ Field "status" (status l);
      Field "info" (VObj (obj_lit
        [ Field "redis" (VObj (obj_lit
            [ Field "status" (redisStatus l);
              Field "description" (VStr "Based on the Redis PING/PONG system");
              Spread (js_and (redisError l)
                (VObj (obj_lit
                  [Field "error" (get_prop (redisError l) "message")]))) ])) ])) ]).

(** [res.status(code).json(body)]. *)
Definition res_status_json (code : Z) (body : value) (w : world) : world :=
  {| console_error := console_error w; statusCode := code; sent := Some body |}.

(** The handler mounted at [/healthcheck]. *)
Definition healthcheck (ping : settled) (w : world) : world :=
  let '(l, w1) := try_ping ping initial_locals w in
  res_status_json 200 (health_body l) w1.

End Index.

(** ** [src/config.js] *)

Module Config.

(** Modelled from the spec: [src/config.js] is not part of the sources at
    hand, only its unit test is.  An environment variable is set when it is
    present and not empty. *)
Definition is_set (v : option string) : bool :=
  match v with
  | Some s => negb (String.eqb s EmptyString)
  | None => false
  end.

(** Modelled from the spec: [src/config.js] is missing; "trailing slashes
    normalized away". *)
Fixpoint normalizePath (pathStr : string) : string :=
  match pathStr with
  | EmptyString => EmptyString
  | String c rest =>
      match normalizePath rest with
      | EmptyString => if Ascii.eqb c "/" then EmptyString else String c EmptyString
      | kept => String c kept
      end
  end.

(** Modelled from the spec: [src/config.js] is missing; the exported
    [PROXY_PATH] is the normalized variable, the empty string when it is
    unset. *)
Definition PROXY_PATH (env : gmap string string) : string :=
  normalizePath (default EmptyString (env !! "PROXY_PATH")).

(** Modelled from the spec: [src/config.js] is missing; "AUTH_ENABLED is
    true iff both login and password are set". *)
Definition AUTH_ENABLED (env : gmap string string) : bool :=
  is_set (env !! "USER_LOGIN") && is_set (env !! "USER_PASSWORD").

(** Modelled from the spec: [src/config.js] is missing; "HOME_PAGE is
    prefixed by PROXY_PATH when set", and is ["/"] otherwise. *)
Definition HOME_PAGE (env : gmap string string) : string :=
  if is_set (env !! "PROXY_PATH") then PROXY_PATH env else "/".

(** Modelled from the spec: [src/config.js] is missing; "LOGIN_PAGE is
    prefixed by PROXY_PATH when set", and is ["/login"] otherwise. *)
Definition LOGIN_PAGE (env : gmap string string) : string :=
  if is_set (env !! "PROXY_PATH") then PROXY_PATH env +:+ "/login"
  else "/login".

(** Modelled from the spec: [src/config.js] is missing; the part of the
    [config] object that the claims are about. *)
Definition config (env : gmap string string) : gmap string value :=
  obj_lit
    [ Field "PROXY_PATH" (VStr (PROXY_PATH env));
      Field "USER_LOGIN" (from_option VStr VUndefined (env !! "USER_LOGIN"));
      Field "USER_PASSWORD"
        (from_option VStr VUndefined (env !! "USER_PASSWORD"));
      Field "AUTH_ENABLED" (VBool (AUTH_ENABLED env));
      Field "HOME_PAGE" (VStr (HOME_PAGE env));
      Field "LOGIN_PAGE" (VStr (LOGIN_PAGE env)) ].

End Config.

(** ** [src/bull.js] *)

Module Bull.

(** Modelled from the spec: [src/bull.js] is not part of the sources at
    hand, only its unit test is.  The two client libraries, selected by
    [BULL_VERSION]. *)
Inductive bull_version : Type := BULL | BULLMQ.

(** Modelled from the spec: [src/bull.js] is missing; a call
    [new Bull(name, options, connection)] or
    [new Queue(name, options, connection)], as the unit test observes it. *)
Record queue_client : Type := {
  q_version : bull_version;
  q_name : string;
  q_options : gmap string value;
  q_connection : value;
}.

(** Modelled from the spec: [src/bull.js] is not part of the sources at
    hand, only its unit test is.  The key under which the Redis options are
    passed: [connection] for BullMQ, [redis] for Bull. *)
Definition connection_key (ver : bull_version) : string :=
  match ver with
  | BULLMQ => "connection"
  | BULL => "redis"
  end.

(** Modelled from the spec: [src/bull.js] is missing; "prefix key is present
    in per-queue client options iff the configured queue prefix is a
    non-empty string". *)
Definition prefix_option (config : gmap string value) : value :=
  match get config "BULL_PREFIX" with
  | VStr s =>
      if String.eqb s EmptyString then VUndefined
      else VObj (obj_lit [Field "prefix" (VStr s)])
  | _ => VUndefined
  end.

(** Modelled from the spec: [src/bull.js] is missing; the options object
    of one queue constructor call. *)
Definition queue_options (ver : bull_version) (config redis : gmap string value)
  : gmap string value :=
  obj_lit [ Field (connection_key ver) (VObj redis);
            Spread (prefix_option config) ].

(** Modelled from the spec: [src/bull.js] is missing; the queue name of a
    key [prefix:name:rest], as in ["bull:queue1:jobs"]. *)
Definition queue_name (key : string) : string :=
  default key (Str.split (Str.is_char ":") key !! 1%nat).

(** Modelled from the spec: [src/bull.js] is missing; a retry wrapper that
    runs attempt [k], [k + 1], ... until one returns or [retries] further
    attempts are used up.  The delays between attempts are not modelled. *)
Fixpoint backOff {A} (retries k : nat) (request : nat → completion A)
  : completion A :=
  match request k with
  | Normal a => Normal a
  | Throw e =>
      match retries with
      | O => Throw e
      | S retries' => backOff retries' (S k) request
      end
  end.

(** Modelled from the spec: [src/bull.js] is missing; the state of the
    dashboard: the registered queues and what was written with
    [console.error]. *)
Record board : Type := {
  queues : list queue_client;
  log : list exn;
}.

(** Modelled from the spec: [src/bull.js] is missing; the board is created
    with no queue. *)
Definition initial_board : board := {| queues := []; log := [] |}.

(** Modelled from the spec: [src/bull.js] is missing; how the key scan
    [client.keys(...)] settles. *)
Inductive scan_result : Type :=
  | Keys (keys : list string)
  | ScanFailed (e : exn).

(** Modelled from the spec: [src/bull.js] is missing; the error logged
    when no queue is discovered. *)
Definition no_queue_found : exn := Error "No queue found.".

Section Discovery.

Variable ver : bull_version.
Variables config redis : gmap string value.
Variable connection : value.
(** The error, if any, that the external constructor raises at attempt
    [k] for the queue of that name. *)
Variable failure : string → nat → option exn.
Variable retries : nat.

(** Modelled from the spec: [src/bull.js] is missing; one construction
    attempt. *)
Definition new_queue (name : string) (k : nat) : completion queue_client :=
  match failure name k with
  | Some e => Throw e
  | None =>
      Normal {| q_version := ver; q_name := name;
                q_options := queue_options ver config redis;
                q_connection := connection |}
  end.

(** Modelled from the spec: [src/bull.js] is missing; "on persistent
    failure for a given queue, log the error and continue with remaining
    queues". *)
Fixpoint construct_all (names : list string) (errors : list exn)
  : list queue_client * list exn :=
  match names with
  | [] => ([], errors)
  | name :: names' =>
      match backOff retries 0 (new_queue name) with
      | Normal q =>
          let '(qs, errors') := construct_all names' errors in
          (q :: qs, errors')
      | Throw e => construct_all names' (errors ++ [e])
      end
  end.

(** Modelled from the spec: [src/bull.js] is missing; "enumerate Redis
    keys, extract unique queue names, construct one queue client per
    name"; finding no queue is an error. *)
Definition getBullQueues (scan : scan_result) (errors : list exn)
  : completion (list queue_client) * list exn :=
  match scan with
  | ScanFailed e => (Throw e, errors)
  | Keys keys =>
      let '(qs, errors') :=
        construct_all (remove_dups (queue_name <$> keys)) errors in
      (match qs with
       | [] => Throw no_queue_found
       | _ => Normal qs
       end, errors')
  end.

(** Modelled from the spec: [src/bull.js] is missing; "a global discovery
    failure (no queues, or the key scan itself failing) is logged, not
    thrown". *)
Definition bullMain (scan : scan_result) (b : board) : completion board :=
  match getBullQueues scan (log b) with
  | (Normal qs, errors) => Normal {| queues := qs; log := errors |}
  | (Throw e, errors) => Normal {| queues := queues b; log := errors ++ [e] |}
  end.

End Discovery.

End Bull.

(** ** [src/login.js] *)

Module Login.

(** Modelled from the spec: [src/login.js] is not part of the sources at
    hand, only its unit test is.  The arguments of one call of the
    verification callback [done]. *)
Record done_call : Type := {
  done_err : value;
  done_user : value;
}.

(** Modelled from the spec: [src/login.js] is missing; the fixed user
    identity, [{user: 'bull-board'}] in the unit test. *)
Definition fixed_user : value :=
  VObj (obj_lit [Field "user" (VStr "bull-board")]).

(** Modelled from the spec: [src/login.js] is missing; the verify function
    of the local strategy: "credentials matching configured login/password yield a
    success callback with a fixed user identity; any mismatch yields a not
    authenticated outcome, never an error". *)
Definition verify (config : gmap string value) (username password : string)
  : done_call :=
  if strict_eq_str (get config "USER_LOGIN") username
     && strict_eq_str (get config "USER_PASSWORD") password
  then {| done_err := VNull; done_user := fixed_user |}
  else {| done_err := VNull; done_user := VBool false |}.

End Login.

(** * Vocabulary of the statements *)

(** The default configuration of the Redis client unit test. *)
Definition test_config : gmap string value :=
  list_to_map
    [ ("REDIS_PORT", VNum 6379); ("REDIS_HOST", VStr "localhost");
      ("REDIS_DB", VStr "0"); ("REDIS_USER", VStr "testuser");
      ("REDIS_PASSWORD", VStr "testpassword"); ("REDIS_USE_TLS", VStr "false");
      ("REDIS_FAMILY", VNum 4); ("REDIS_KEEP_ALIVE", VNum 5000);
      ("REDIS_NO_DELAY", VBool true);
      ("REDIS_ENABLE_OFFLINE_QUEUE", VBool true);
      ("REDIS_ENABLE_READY_CHECK", VBool true) ].

(** [SENTINEL_HOSTS] as the configuration loader provides it: absent (any
    falsy value) or a string. *)
Definition hosts_typed (config : gmap string value) : Prop :=
  truthy (get config "SENTINEL_HOSTS") = false ∨
  ∃ hosts, get config "SENTINEL_HOSTS" = VStr hosts.

(** The conditional members of the options outside the sentinel branch, as
    pairs of the configuration name and the option key. *)
Definition plain_optional : list (string * string) :=
  [ ("REDIS_USER", "username"); ("REDIS_PASSWORD", "password");
    ("REDIS_COMMAND_TIMEOUT", "commandTimeout");
    ("REDIS_SOCKET_TIMEOUT", "socketTimeout");
    ("REDIS_CONNECT_TIMEOUT", "connectTimeout");
    ("REDIS_CONNECTION_NAME", "connectionName") ].

(** The conditional members inside the sentinel branch. *)
Definition sentinel_optional : list (string * string) :=
  [ ("SENTINEL_USERNAME", "sentinelUsername");
    ("SENTINEL_PASSWORD", "sentinelPassword");
    ("SENTINEL_COMMAND_TIMEOUT", "sentinelCommandTimeout") ].

(** Every key that the sentinel branch can add. *)
Definition sentinel_keys : list string :=
  [ "sentinels"; "name"; "role"; "maxRetriesPerRequest"; "sentinelUsername";
    "sentinelPassword"; "sentinelCommandTimeout"; "enableTLSForSentinelMode";
    "updateSentinels"; "sentinelMaxConnections"; "failoverDetector" ].

(** The sentinel configuration of the Redis client unit test. *)
Definition sentinel_test_config : gmap string value :=
  list_to_map
    [ ("SENTINEL_HOSTS", VStr "host1:26379,host2:26379");
      ("SENTINEL_NAME", VStr "mymaster"); ("SENTINEL_ROLE", VStr "master") ].

(** A configuration that sets a sentinel user name and nothing else. *)
Definition sentinel_user_only : gmap string value :=
  {[ "SENTINEL_USERNAME" := VStr "watcher" ]}.

Fixpoint all_chars (p : ascii → bool) (s : string) : bool :=
  match s with
  | EmptyString => true
  | String c s' => p c && all_chars p s'
  end.

Definition is_digit (c : ascii) : bool :=
  let n := nat_of_ascii c in ((48 <=? n) && (n <=? 57))%nat.

(** The number that a string of decimal digits denotes. *)
Fixpoint decimal_from (acc : Z) (s : string) : Z :=
  match s with
  | EmptyString => acc
  | String c s' => decimal_from (10 * acc + (Z.of_nat (nat_of_ascii c) - 48)) s'
  end.

Definition decimal : string → Z := decimal_from 0.

(** The host part of an entry: any text without [','], [';'] and [':']. *)
Definition host_text (h : string) : bool :=
  all_chars (λ c, negb (Redis.is_dsn_separator c || Str.is_char ":" c)) h.

(** The port part of an entry: one to fifteen decimal digits, which denote
    a number below [2^53]. *)
Definition port_text (p : string) : bool :=
  negb (String.eqb p EmptyString) && all_chars is_digit p
  && (String.length p <=? 15)%nat.

Definition entry_ok (e : string * string) : bool :=
  host_text e.1 && port_text e.2.

Definition entry_text (e : string * string) : string :=
  e.1 +:+ String ":" e.2.

(** The DSN with first entry [e], followed by the entries of [rest], each
    after its separator. *)
Fixpoint dsn_text (e : string * string) (rest : list (ascii * (string * string)))
  : string :=
  match rest with
  | [] => entry_text e
  | (sep, e') :: rest' => entry_text e +:+ String sep (dsn_text e' rest')
  end.

(** The record [{host, port}] expected for an entry. *)
Definition sentinel (e : string * string) : value :=
  VObj (obj_lit [Field "host" (VStr e.1); Field "port" (VNum (decimal e.2))]).

(** Reading a path [a.b.c] out of a sent body; [None] when a key on the
    path is absent. *)
Fixpoint at_path (path : list string) (v : value) : option value :=
  match path with
  | [] => Some v
  | k :: path' =>
      match v with
      | VObj o => o !! k ≫= at_path path'
      | _ => None
      end
  end.

(** The rejection of the unit test: [new Error('Redis connection error')]. *)
Definition connection_error : value :=
  VObj (obj_lit [Field "message" (VStr "Redis connection error")]).

Definition fresh_world : Index.world :=
  {| Index.console_error := []; Index.statusCode := 200; Index.sent := None |}.

(** An environment variable is set: present and not empty. *)
Definition var_set (env : gmap string string) (name : string) : Prop :=
  ∃ s, env !! name = Some s ∧ s ≠ EmptyString.

Fixpoint ends_with_slash (s : string) : bool :=
  match s with
  | EmptyString => false
  | String c EmptyString => Ascii.eqb c "/"
  | String _ rest => ends_with_slash rest
  end.

Fixpoint slashes (n : nat) : string :=
  match n with
  | O => EmptyString
  | S n' => String "/" (slashes n')
  end.

(** [q] is [p] without its trailing slashes. *)
Definition trailing_slashes_removed (p q : string) : Prop :=
  ends_with_slash q = false ∧ ∃ n, p = q +:+ slashes n.

(** The environments of the path handling unit tests. *)
Definition slash_env : gmap string string :=
  {[ "PROXY_PATH" := "/custom-path/" ]}.

(** The configured prefix is a non-empty string. *)
Definition prefix_configured (config : gmap string value) : Prop :=
  ∃ s, get config "BULL_PREFIX" = VStr s ∧ s ≠ EmptyString.

(** The client that a successful constructor call for [name] returns. *)
Definition constructed_queue (ver : Bull.bull_version) (config redis : gmap string value)
    (connection : value) (name : string) : Bull.queue_client :=
  {| Bull.q_version := ver; Bull.q_name := name;
     Bull.q_options := Bull.queue_options ver config redis;
     Bull.q_connection := connection |}.

(** The configurations of the prefix unit tests. *)
Definition bull_test_config (prefix : value) : gmap string value :=
  list_to_map [ ("BULL_PREFIX", prefix); ("BULL_BOARD_TITLE", VStr "Test Bull Board") ].

Definition test_keys : list string := ["bull:queue1:jobs"; "bull:queue2:jobs"].

Definition no_failure : string → nat → option exn := λ _ _, None.

(** The configuration of the login unit test. *)
Definition login_test_config : gmap string value :=
  list_to_map [ ("USER_LOGIN", VStr "admin"); ("USER_PASSWORD", VStr "password") ].

(** * Properties *)

Example split_two :
  Str.split Redis.is_dsn_separator "host1:26379;host2:26380" =
  ["host1:26379"; "host2:26380"].
Proof. reflexivity. Qed.

Example parseInt_port : Str.Number_parseInt (Some "26379") = VNum 26379.
Proof. reflexivity. Qed.

Example parseInt_hex : Str.Number_parseInt (Some "  -0x1Fz") = VNum (-31).
Proof. reflexivity. Qed.

Example parseInt_undefined : Str.Number_parseInt None = VNaN.
Proof. reflexivity. Qed.

Example parse_test_dsn :
  Redis.parseDSNToSentinels (VStr "host1:26379,host2:26379") =
  Normal (VArr
    [ VObj (<["port" := VNum 26379]> (<["host" := VStr "host1"]> ∅));
      VObj (<["port" := VNum 26379]> (<["host" := VStr "host2"]> ∅)) ]).
Proof. reflexivity. Qed.

Example test_config_options :
  ∃ opts, Redis.redis_options test_config = Normal opts ∧
    opts !! "port" = Some (VNum 6379) ∧
    opts !! "host" = Some (VStr "localhost") ∧
    opts !! "username" = Some (VStr "testuser") ∧
    opts !! "tls" = Some (VBool false) ∧
    opts !! "commandTimeout" = None ∧
    opts !! "keepAlive" = Some (VNum 5000) ∧
    opts !! "autoResubscribe" = Some VUndefined.
Proof. eexists. split; [reflexivity|]. vm_compute. tauto. Qed.

(** ** Object literals *)

Section ObjectLiterals.

Implicit Types (acc o : gmap string value) (v : value) (k j : string).

Lemma lookup_field_eq acc k v : add_member acc (Field k v) !! k = Some v.
Proof. apply lookup_insert_eq. Qed.

Lemma lookup_field_ne acc k j v :
  k ≠ j → add_member acc (Field k v) !! j = acc !! j.
Proof. apply lookup_insert_ne. Qed.

Lemma lookup_spread_obj acc o j :
  spread_into acc (VObj o) !! j =
  match o !! j with Some v => Some v | None => acc !! j end.
Proof.
  simpl. rewrite lookup_union. destruct (o !! j), (acc !! j); done.
Qed.

Lemma lookup_spread_member acc o j :
  add_member acc (Spread (VObj o)) !! j =
  match o !! j with Some v => Some v | None => acc !! j end.
Proof. apply lookup_spread_obj. Qed.

(** A falsy value has no own enumerable property. *)
Lemma spread_falsy acc v : truthy v = false → spread_into acc v = acc.
Proof.
  destruct v as [| |b| |n|s|xs|o]; simpl; try done.
  destruct s; [done | discriminate].
Qed.

Lemma lookup_guarded acc c o j :
  add_member acc (Spread (js_and c (VObj o))) !! j =
  if truthy c then match o !! j with Some v => Some v | None => acc !! j end
  else acc !! j.
Proof.
  unfold js_and. simpl. destruct (truthy c) eqn:Hc.
  - apply lookup_spread_obj.
  - by rewrite spread_falsy.
Qed.

Lemma lookup_optional_eq acc config src key :
  add_member acc (Redis.optional config src key) !! key =
  if truthy (get config src) then Some (get config src) else acc !! key.
Proof.
  unfold Redis.optional. rewrite lookup_guarded.
  destruct (truthy _); [|done].
  unfold obj_lit; simpl. by rewrite lookup_insert_eq.
Qed.

Lemma lookup_optional_ne acc config src key j :
  key ≠ j → add_member acc (Redis.optional config src key) !! j = acc !! j.
Proof.
  intros Hne. unfold Redis.optional. rewrite lookup_guarded.
  destruct (truthy _); [|done].
  unfold obj_lit; simpl. by rewrite lookup_insert_ne, lookup_empty.
Qed.

End ObjectLiterals.

(** Resolving [obj !! "key"] through the members of a literal, last member
    first. *)
Ltac lookup_step :=
  first
    [ rewrite lookup_field_eq
    | rewrite lookup_field_ne by discriminate
    | rewrite lookup_optional_eq
    | rewrite lookup_optional_ne by discriminate
    | rewrite lookup_spread_member
    | rewrite lookup_guarded
    | rewrite lookup_empty ].

Ltac lookup_lit := unfold obj_lit; cbn [foldl]; repeat lookup_step.

(** ** The Redis options *)

Section RedisOptions.

Implicit Types (config acc o : gmap string value) (k j : string).

Lemma truthy_nonempty s : s ≠ EmptyString → truthy (VStr s) = true.
Proof. by destruct s. Qed.

Lemma sentinel_options_absent config :
  truthy (get config "SENTINEL_HOSTS") = false →
  Redis.sentinel_options config = Normal (get config "SENTINEL_HOSTS").
Proof. intros H. unfold Redis.sentinel_options. by rewrite H. Qed.

(** A truthy [SENTINEL_HOSTS] that is not a string makes the module
    throw while it is loaded. *)
Lemma redis_options_throws config :
  truthy (get config "SENTINEL_HOSTS") = true →
  (∀ hosts, get config "SENTINEL_HOSTS" ≠ VStr hosts) →
  Redis.redis_options config = Throw (TypeError "dsn.split is not a function").
Proof.
  intros Ht Hs. unfold Redis.redis_options, Redis.sentinel_options.
  rewrite Ht. destruct (get config "SENTINEL_HOSTS"); try done.
  by destruct (Hs s).
Qed.

End RedisOptions.

(** Unfolding [redis_options] when [SENTINEL_HOSTS] is the non-empty string
    of [Hh], and when it is falsy. *)
Ltac sentinel_mode Hh Hne :=
  unfold Redis.redis_options, Redis.sentinel_options, Redis.direct_options;
  rewrite Hh, (truthy_nonempty _ Hne);
  cbn [Redis.parseDSNToSentinels mbind JS.completion_bind mret
       JS.completion_ret].

Ltac direct_mode Hf :=
  unfold Redis.redis_options, Redis.direct_options;
  rewrite (sentinel_options_absent _ Hf), Hf;
  cbn [mbind JS.completion_bind mret JS.completion_ret];
  unfold obj_lit at 1; cbn [foldl];
  change (add_member ∅ (Spread ?v)) with (spread_into ∅ v);
  rewrite (spread_falsy _ _ Hf).

Ltac split_members H :=
  repeat (apply elem_of_cons in H as [H|H]; [try injection H as -> ->|]);
  [..|by apply elem_of_nil in H].

(** C9: the options builder branches on [SENTINEL_HOSTS].  When it is a
    non-empty string the options hold [sentinels] (the parsed host list),
    [name] and [role] and have no [host], [port] or [family] key; when it is
    absent the options hold [port], [host] and [family] and none of the keys
    of the sentinel branch. *)
Theorem redis_options_topology (config : gmap string value) :
  (∀ hosts, get config "SENTINEL_HOSTS" = VStr hosts → hosts ≠ EmptyString →
     ∃ opts sentinels,
       Redis.redis_options config = Normal opts ∧
       Redis.parseDSNToSentinels (VStr hosts) = Normal sentinels ∧
       opts !! "sentinels" = Some sentinels ∧
       opts !! "name" = Some (get config "SENTINEL_NAME") ∧
       opts !! "role" = Some (get config "SENTINEL_ROLE") ∧
       opts !! "host" = None ∧ opts !! "port" = None ∧
       opts !! "family" = None) ∧
  (truthy (get config "SENTINEL_HOSTS") = false →
     ∃ opts,
       Redis.redis_options config = Normal opts ∧
       opts !! "port" = Some (get config "REDIS_PORT") ∧
       opts !! "host" = Some (get config "REDIS_HOST") ∧
       opts !! "family" = Some (get config "REDIS_FAMILY") ∧
       ∀ k, k ∈ sentinel_keys → opts !! k = None).
Proof.
  split.
  - intros hosts Hh Hne. sentinel_mode Hh Hne.
    eexists _, _. split; [reflexivity|]. split; [reflexivity|].
    repeat split; by lookup_lit.
  - intros Hf. direct_mode Hf.
    eexists. split; [reflexivity|].
    repeat split; try by lookup_lit.
    intros k Hk. unfold sentinel_keys in Hk.
    split_members Hk; subst k; by lookup_lit.
Qed.

Lemma redis_options_topology_witness :
  (∃ opts sentinels,
     Redis.redis_options sentinel_test_config = Normal opts ∧
     Redis.parseDSNToSentinels (VStr "host1:26379,host2:26379")
       = Normal sentinels ∧
     opts !! "sentinels" = Some sentinels ∧
     opts !! "name" = Some (get sentinel_test_config "SENTINEL_NAME") ∧
     opts !! "role" = Some (get sentinel_test_config "SENTINEL_ROLE") ∧
     opts !! "host" = None ∧ opts !! "port" = None ∧
     opts !! "family" = None) ∧
  (∃ opts,
     Redis.redis_options test_config = Normal opts ∧
     opts !! "port" = Some (get test_config "REDIS_PORT") ∧
     opts !! "host" = Some (get test_config "REDIS_HOST") ∧
     opts !! "family" = Some (get test_config "REDIS_FAMILY") ∧
     ∀ k, k ∈ sentinel_keys → opts !! k = None).
Proof.
  split.
  - apply (proj1 (redis_options_topology sentinel_test_config)
             "host1:26379,host2:26379"); [reflexivity | discriminate].
  - apply (proj2 (redis_options_topology test_config)). reflexivity.
Defined.

(** C2, as the code has it.  For a configuration whose [SENTINEL_HOSTS] is
    absent or a string, the options are built and:
    - [username], [password], [commandTimeout], [socketTimeout],
      [connectTimeout] and [connectionName] are keys exactly when their
      source value is truthy, and are then bound to that value;
    - [sentinelUsername], [sentinelPassword] and [sentinelCommandTimeout]
      are keys exactly when [SENTINEL_HOSTS] is truthy and their own source
      value is truthy, and are then bound to that value;
    - [tls] is a key in every case, bound to the boolean
      [REDIS_USE_TLS === 'true'];
    - [maxRetriesPerRequest] is a key exactly when [SENTINEL_HOSTS] is
      truthy, bound to its source value or else to [null]. *)
Theorem optional_fields_by_presence (config : gmap string value) :
  hosts_typed config →
  ∃ opts,
    Redis.redis_options config = Normal opts ∧
    (∀ src key, (src, key) ∈ plain_optional →
       opts !! key =
       if truthy (get config src) then Some (get config src) else None) ∧
    (∀ src key, (src, key) ∈ sentinel_optional →
       opts !! key =
       if truthy (get config "SENTINEL_HOSTS") && truthy (get config src)
       then Some (get config src) else None) ∧
    opts !! "tls" =
      Some (VBool (strict_eq_str (get config "REDIS_USE_TLS") "true")) ∧
    opts !! "maxRetriesPerRequest" =
      if truthy (get config "SENTINEL_HOSTS")
      then Some (js_or (get config "MAX_RETRIES_PER_REQUEST") VNull)
      else None.
Proof.
  intros Htyped.
  destruct (truthy (get config "SENTINEL_HOSTS")) eqn:Hf.
  - destruct Htyped as [|[hosts Hh]]; [congruence|].
    assert (hosts ≠ EmptyString) as Hne.
    { intros ->. rewrite Hh in Hf. done. }
    clear Hf. sentinel_mode Hh Hne.
    eexists. split; [reflexivity|].
    split; [|split; [|split]]; try by lookup_lit.
    + intros src key Hm. unfold plain_optional in Hm.
      split_members Hm; by lookup_lit.
    + intros src key Hm. unfold sentinel_optional in Hm.
      split_members Hm; lookup_lit; simpl; by destruct (truthy _).
  - clear Htyped. direct_mode Hf.
    eexists. split; [reflexivity|].
    split; [|split; [|split]]; try by lookup_lit.
    + intros src key Hm. unfold plain_optional in Hm.
      split_members Hm; by lookup_lit.
    + intros src key Hm. unfold sentinel_optional in Hm.
      split_members Hm; by lookup_lit.
Qed.

Lemma optional_fields_by_presence_witness :
  hosts_typed test_config ∧
  ∃ opts,
    Redis.redis_options test_config = Normal opts ∧
    (∀ src key, (src, key) ∈ plain_optional →
       opts !! key =
       if truthy (get test_config src)
       then Some (get test_config src) else None) ∧
    (∀ src key, (src, key) ∈ sentinel_optional →
       opts !! key =
       if truthy (get test_config "SENTINEL_HOSTS")
          && truthy (get test_config src)
       then Some (get test_config src) else None) ∧
    opts !! "tls" =
      Some (VBool (strict_eq_str (get test_config "REDIS_USE_TLS") "true")) ∧
    opts !! "maxRetriesPerRequest" =
      if truthy (get test_config "SENTINEL_HOSTS")
      then Some (js_or (get test_config "MAX_RETRIES_PER_REQUEST") VNull)
      else None.
Proof.
  assert (hosts_typed test_config) as Htyped by (left; reflexivity).
  split; [exact Htyped|].
  exact (optional_fields_by_presence test_config Htyped).
Defined.

(** C2 as stated fails: with no [REDIS_USE_TLS] in the configuration the
    options still have a [tls] key, and with [SENTINEL_USERNAME] set (but no
    [SENTINEL_HOSTS]) they have no [sentinelUsername] key. *)
Lemma optional_fields_not_by_presence_alone :
  ∃ opts,
    Redis.redis_options sentinel_user_only = Normal opts ∧
    (sentinel_user_only !! "REDIS_USE_TLS" = None ∧
     opts !! "tls" = Some (VBool false)) ∧
    (sentinel_user_only !! "SENTINEL_USERNAME" = Some (VStr "watcher") ∧
     opts !! "sentinelUsername" = None).
Proof. eexists. split; [reflexivity|]. vm_compute. tauto. Qed.

(** In sentinel mode an absent [MAX_RETRIES_PER_REQUEST] gives a key bound
    to [null]. *)
Lemma maxRetriesPerRequest_null :
  ∃ opts,
    Redis.redis_options sentinel_test_config = Normal opts ∧
    sentinel_test_config !! "MAX_RETRIES_PER_REQUEST" = None ∧
    opts !! "maxRetriesPerRequest" = Some VNull.
Proof. eexists. split; [reflexivity|]. vm_compute. tauto. Qed.

(** ** Sentinel DSN strings *)

Ltac ascii_cases c := destruct c as [[] [] [] [] [] [] [] []]; try reflexivity.

Section Split.

Variable sep : ascii → bool.

Lemma split_not_nil s : Str.split sep s ≠ [].
Proof. destruct s as [|c s]; simpl; [done|]. by repeat case_match. Qed.

Lemma split_no_sep s :
  all_chars (λ c, negb (sep c)) s = true → Str.split sep s = [s].
Proof.
  induction s as [|c s IH]; simpl; [done|].
  intros [Hc Hs]%andb_true_iff. apply negb_true_iff in Hc.
  by rewrite Hc, (IH Hs).
Qed.

Lemma split_at_sep s c r :
  all_chars (λ c, negb (sep c)) s = true → sep c = true →
  Str.split sep (s +:+ String c r) = s :: Str.split sep r.
Proof.
  intros Hs Hc. induction s as [|d s IH]; simpl in *.
  - by rewrite Hc.
  - apply andb_true_iff in Hs as [Hd Hs]. apply negb_true_iff in Hd.
    by rewrite Hd, (IH Hs).
Qed.

End Split.

Section AllChars.

Lemma all_chars_impl (p q : ascii → bool) s :
  (∀ c, p c = true → q c = true) →
  all_chars p s = true → all_chars q s = true.
Proof.
  intros Hpq. induction s as [|c s IH]; simpl; [done|].
  intros [Hc Hs]%andb_true_iff. by rewrite (Hpq _ Hc), (IH Hs).
Qed.

Lemma all_chars_app p s t :
  all_chars p (s +:+ t) = all_chars p s && all_chars p t.
Proof.
  induction s as [|c s IH]; simpl; [done|]. by rewrite IH, andb_assoc.
Qed.

End AllChars.

Section ParseInt.

Lemma is_digit_range c :
  is_digit c = true → 48 ≤ Z.of_nat (nat_of_ascii c) ≤ 57.
Proof.
  unfold is_digit. intros [H1 H2]%andb_true_iff.
  apply Nat.leb_le in H1, H2. lia.
Qed.

Lemma digit_value_digit c :
  is_digit c = true →
  Str.digit_value c = Some (Z.of_nat (nat_of_ascii c) - 48) ∧
  (Z.of_nat (nat_of_ascii c) - 48 <? 10) = true.
Proof.
  intros Hc%is_digit_range. unfold Str.digit_value. split.
  - assert ((48 <=? Z.of_nat (nat_of_ascii c)) = true) as ->
      by (apply Z.leb_le; lia).
    by assert ((Z.of_nat (nat_of_ascii c) <=? 57) = true) as ->
      by (apply Z.leb_le; lia).
  - apply Z.ltb_lt. lia.
Qed.

Lemma parse_digits_decimal s acc :
  all_chars is_digit s = true →
  Str.parse_digits 10 (Some acc) s = Some (decimal_from acc s).
Proof.
  revert acc. induction s as [|c s IH]; intros acc; simpl; [done|].
  intros [Hc Hs]%andb_true_iff.
  destruct (digit_value_digit c Hc) as [-> ->]. simpl default.
  by rewrite IH.
Qed.

Lemma parse_digits_port p :
  port_text p = true → Str.parse_digits 10 None p = Some (decimal p).
Proof.
  unfold port_text. intros [[Hne Hd]%andb_true_iff _]%andb_true_iff.
  destruct p as [|c s]; [done|]. simpl in Hd |- *.
  apply andb_true_iff in Hd as [Hc Hs].
  destruct (digit_value_digit c Hc) as [-> ->]. simpl default.
  by rewrite parse_digits_decimal.
Qed.

Lemma trim_start_digit c s :
  is_digit c = true → Str.trim_start (String c s) = String c s.
Proof.
  intros Hc%is_digit_range. simpl. unfold Str.is_white.
  assert ((nat_of_ascii c <=? 13)%nat = false) as ->
    by (apply Nat.leb_gt; lia).
  assert ((nat_of_ascii c =? 32)%nat = false) as ->
    by (apply Nat.eqb_neq; lia).
  assert ((nat_of_ascii c =? 160)%nat = false) as ->
    by (apply Nat.eqb_neq; lia).
  by rewrite andb_false_r.
Qed.

Lemma strip_sign_digit c s :
  is_digit c = true → Str.strip_sign (String c s) = (1, String c s).
Proof. intros Hc. ascii_cases c; discriminate Hc. Qed.

Lemma strip_hex_prefix_digits s :
  all_chars is_digit s = true → Str.strip_hex_prefix s = (10, s).
Proof.
  destruct s as [|c [|d s]]; simpl; [done| |].
  - by ascii_cases c.
  - intros [_ [Hd _]%andb_true_iff]%andb_true_iff.
    ascii_cases c. ascii_cases d; discriminate Hd.
Qed.

(** On a port text [Number.parseInt] returns the number it denotes. *)
Lemma Number_parseInt_port p :
  port_text p = true → Str.Number_parseInt (Some p) = VNum (decimal p).
Proof.
  intros Hp. pose proof (parse_digits_port p Hp) as Hparse.
  unfold port_text in Hp.
  apply andb_true_iff in Hp as [[Hne Hd]%andb_true_iff _].
  destruct p as [|c s]; [done|].
  unfold Str.Number_parseInt. simpl default.
  pose proof Hd as Hd'. simpl in Hd'. apply andb_true_iff in Hd' as [Hc _].
  rewrite (trim_start_digit c s Hc), (strip_sign_digit c s Hc).
  rewrite (strip_hex_prefix_digits _ Hd), Hparse.
  f_equal. lia.
Qed.

End ParseInt.

Section SentinelDSN.

Implicit Types (e : string * string) (rest : list (ascii * (string * string))).

Lemma digits_no_separator p :
  all_chars is_digit p = true →
  all_chars (λ c, negb (Redis.is_dsn_separator c)) p = true.
Proof.
  apply all_chars_impl. intros c Hc. ascii_cases c; discriminate Hc.
Qed.

Lemma digits_no_colon p :
  all_chars is_digit p = true →
  all_chars (λ c, negb (Str.is_char ":" c)) p = true.
Proof.
  apply all_chars_impl. intros c Hc. ascii_cases c; discriminate Hc.
Qed.

Lemma port_text_digits p : port_text p = true → all_chars is_digit p = true.
Proof.
  unfold port_text. by intros [[_ ?]%andb_true_iff _]%andb_true_iff.
Qed.

Lemma entry_no_separator e :
  entry_ok e = true →
  all_chars (λ c, negb (Redis.is_dsn_separator c)) (entry_text e) = true.
Proof.
  destruct e as [h p]. unfold entry_ok, entry_text. simpl.
  intros [Hh Hp%port_text_digits]%andb_true_iff.
  rewrite all_chars_app. simpl.
  rewrite (digits_no_separator _ Hp), andb_true_r.
  revert Hh. apply all_chars_impl. intros c.
  by intros [? _]%negb_true_iff%orb_false_iff; apply negb_true_iff.
Qed.

(** Splitting a DSN gives back its entries, in order. *)
Lemma split_dsn_text e rest :
  entry_ok e = true →
  Forall (λ se, Redis.is_dsn_separator se.1 = true ∧ entry_ok se.2 = true)
    rest →
  Str.split Redis.is_dsn_separator (dsn_text e rest) =
  entry_text <$> (e :: rest.*2).
Proof.
  intros He Hrest. revert e He.
  induction Hrest as [|[sep e'] rest [Hsep He'] _ IH]; intros e He; simpl.
  - by rewrite split_no_sep by by apply entry_no_separator.
  - rewrite split_at_sep by (by try apply entry_no_separator).
    f_equal. by apply IH.
Qed.

(** One well-formed entry gives the record of its host and port. *)
Lemma sentinel_of_entry_text e :
  entry_ok e = true → Redis.sentinel_of_entry (entry_text e) = sentinel e.
Proof.
  destruct e as [h p]. unfold entry_ok, entry_text. simpl.
  intros [Hh Hp]%andb_true_iff.
  unfold Redis.sentinel_of_entry, sentinel. simpl.
  rewrite split_at_sep, split_no_sep; simpl.
  - by rewrite Number_parseInt_port.
  - by apply digits_no_colon, port_text_digits.
  - revert Hh. apply all_chars_impl. intros c.
    by intros [_ ?]%negb_true_iff%orb_false_iff; apply negb_true_iff.
  - done.
Qed.

End SentinelDSN.

(** The digits that [pretty] writes for a number denote that number. *)
Section RenderedPorts.

Lemma pretty_N_char_digit d :
  (d < 10)%N →
  is_digit (pretty_N_char d) = true ∧
  Z.of_nat (nat_of_ascii (pretty_N_char d)) - 48 = Z.of_N d.
Proof.
  intros Hd.
  assert (d ∈ [0; 1; 2; 3; 4; 5; 6; 7; 8; 9]%N) as Hin.
  { assert (∃ k, (k < 10)%nat ∧ d = N.of_nat k) as (k & Hk & ->)
      by (exists (N.to_nat d); lia).
    do 10 (destruct k as [|k]; [set_solver|]). lia. }
  repeat (apply elem_of_cons in Hin as [->|Hin]; [by vm_compute|]).
  by apply elem_of_nil in Hin.
Qed.

Lemma decimal_from_pretty_go x s :
  decimal_from 0 (pretty_N_go x s) = decimal_from (Z.of_N x) s.
Proof.
  revert s. induction (N.lt_wf_0 x) as [x _ IH]; intros s.
  destruct (decide (x = 0)%N) as [->|Hx]; [by rewrite pretty_N_go_0|].
  rewrite pretty_N_go_step by lia.
  rewrite IH by (apply N.div_lt; lia). simpl.
  destruct (pretty_N_char_digit (x `mod` 10)) as [_ ->];
    [by apply N.mod_lt|].
  f_equal. rewrite N2Z.inj_div, N2Z.inj_mod. simpl Z.of_N.
  pose proof (Z.div_mod (Z.of_N x) 10). lia.
Qed.

Lemma decimal_pretty (n : N) : decimal (pretty n) = Z.of_N n.
Proof.
  unfold pretty, pretty_N, decimal. case_decide as Hn; [by subst|].
  by rewrite decimal_from_pretty_go.
Qed.

Lemma digits_pretty_go x s :
  all_chars is_digit (pretty_N_go x s) = all_chars is_digit s.
Proof.
  revert s. induction (N.lt_wf_0 x) as [x _ IH]; intros s.
  destruct (decide (x = 0)%N) as [->|Hx]; [by rewrite pretty_N_go_0|].
  rewrite pretty_N_go_step by lia.
  rewrite IH by (apply N.div_lt; lia). simpl.
  by destruct (pretty_N_char_digit (x `mod` 10)) as [-> _];
    [apply N.mod_lt|].
Qed.

Lemma length_pretty_go (k : nat) x s :
  (x < 10 ^ N.of_nat k)%N →
  (String.length (pretty_N_go x s) ≤ String.length s + k)%nat.
Proof.
  revert x s. induction k as [|k IH]; intros x s Hx.
  - assert (x = 0%N) as -> by (simpl in Hx; lia).
    rewrite pretty_N_go_0. lia.
  - destruct (decide (x = 0)%N) as [->|Hx0]; [rewrite pretty_N_go_0; lia|].
    rewrite pretty_N_go_step by lia.
    etrans; [apply IH|simpl; lia].
    rewrite Nat2N.inj_succ, N.pow_succ_r' in Hx.
    apply N.Div0.div_lt_upper_bound; lia.
Qed.

Lemma length_pretty_go_ge x s :
  (String.length s ≤ String.length (pretty_N_go x s))%nat.
Proof.
  revert s. induction (N.lt_wf_0 x) as [x _ IH]; intros s.
  destruct (decide (x = 0)%N) as [->|Hx]; [by rewrite pretty_N_go_0|].
  rewrite pretty_N_go_step by lia.
  etrans; [|apply IH, N.div_lt; lia]. simpl. lia.
Qed.

Lemma port_text_pretty (n : N) : (n < 10 ^ 15)%N → port_text (pretty n) = true.
Proof.
  intros Hn. unfold port_text, pretty, pretty_N.
  case_decide as H0; [done|].
  rewrite digits_pretty_go. simpl all_chars. rewrite andb_true_r.
  apply andb_true_iff. split.
  - apply negb_true_iff, String.eqb_neq.
    rewrite pretty_N_go_step by lia. intros Hempty.
    pose proof (length_pretty_go_ge (n `div` 10)
                  (String (pretty_N_char (n `mod` 10)) EmptyString)) as Hlen.
    rewrite Hempty in Hlen. simpl in Hlen. lia.
  - apply Nat.leb_le. apply (length_pretty_go 15 n EmptyString). exact Hn.
Qed.

(** An entry written as a host, a colon and a port number in decimal gives
    back that host and that number. *)
Lemma sentinel_of_rendered_entry (h : string) (n : N) :
  host_text h = true → (n < 10 ^ 15)%N →
  Redis.sentinel_of_entry (h +:+ String ":" (pretty n)) =
  VObj (obj_lit [Field "host" (VStr h); Field "port" (VNum (Z.of_N n))]).
Proof.
  intros Hh Hn.
  change (h +:+ String ":" (pretty n)) with (entry_text (h, pretty n)).
  rewrite sentinel_of_entry_text.
  - unfold sentinel. simpl. by rewrite decimal_pretty.
  - unfold entry_ok. simpl. by rewrite Hh, port_text_pretty.
Qed.

End RenderedPorts.

(** C3: on a DSN made of [host:port] entries separated by [','] or [';'],
    [parseDSNToSentinels] returns one [{host, port}] record per entry, in
    the order of the entries; the host is the text before the colon, the
    port is the number that the digits after it denote, an integer. *)
Theorem parseDSNToSentinels_entries
    (e : string * string) (rest : list (ascii * (string * string))) :
  entry_ok e = true →
  Forall (λ se, Redis.is_dsn_separator se.1 = true ∧ entry_ok se.2 = true)
    rest →
  ∃ records,
    Redis.parseDSNToSentinels (VStr (dsn_text e rest))
      = Normal (VArr records) ∧
    records = sentinel <$> (e :: rest.*2) ∧
    Forall (λ record, ∃ n : Z, get_prop record "port" = VNum n) records.
Proof.
  intros He Hrest. exists (sentinel <$> (e :: rest.*2)).
  split; [|split; [done|]].
  - unfold Redis.parseDSNToSentinels.
    rewrite (split_dsn_text e rest He Hrest). do 2 f_equal.
    change (map Redis.sentinel_of_entry (entry_text <$> e :: rest.*2))
      with (Redis.sentinel_of_entry <$> (entry_text <$> e :: rest.*2)).
    rewrite <- list_fmap_compose. apply Forall_fmap_ext_1.
    apply Forall_cons. split; [by apply sentinel_of_entry_text|].
    apply Forall_fmap. eapply Forall_impl; [exact Hrest|].
    intros [sep e'] [_ He']. by apply sentinel_of_entry_text.
  - apply Forall_fmap, Forall_forall. intros en _.
    exists (decimal en.2). reflexivity.
Qed.

Lemma parseDSNToSentinels_entries_witness :
  entry_ok ("host1", "26379") = true ∧
  Forall (λ se, Redis.is_dsn_separator se.1 = true ∧ entry_ok se.2 = true)
    [(";"%char, ("host2", "26380"))] ∧
  ∃ records,
    Redis.parseDSNToSentinels (VStr "host1:26379;host2:26380")
      = Normal (VArr records) ∧
    records = sentinel <$> [("host1", "26379"); ("host2", "26380")] ∧
    Forall (λ record, ∃ n : Z, get_prop record "port" = VNum n) records.
Proof.
  assert (entry_ok ("host1", "26379") = true) as He by reflexivity.
  assert (Forall (λ se, Redis.is_dsn_separator se.1 = true ∧
                        entry_ok se.2 = true)
            [(";"%char, ("host2", "26380"))]) as Hrest
    by (repeat constructor).
  split; [exact He|]. split; [exact Hrest|].
  exact (parseDSNToSentinels_entries _ _ He Hrest).
Defined.

(** ** The health check *)

Section HealthCheck.

Import Index.

Lemma healthcheck_statusCode ping w : statusCode (healthcheck ping w) = 200.
Proof. unfold healthcheck. by destruct (try_ping _ _ _). Qed.

End HealthCheck.

(** C1: the health check answers with status code 200 whatever the ping
    does; a ping that resolves to ["PONG"] gives [status: "ok"] and
    [info.redis.status: "up"] and no [error] key; a ping that rejects with
    an error [err] (any truthy reason) gives [status: "error"], a
    [info.redis.status] bound to [undefined], and [info.redis.error] bound to
    [err.message]. *)
Theorem healthcheck_contract (w : Index.world) :
  (∃ body,
     Index.sent (Index.healthcheck (Index.Resolved (VStr "PONG")) w)
       = Some body ∧
     at_path ["status"] body = Some (VStr "ok") ∧
     at_path ["info"; "redis"; "status"] body = Some (VStr "up") ∧
     at_path ["info"; "redis"; "error"] body = None) ∧
  (∀ err, truthy err = true →
     ∃ body,
       Index.sent (Index.healthcheck (Index.Rejected err) w) = Some body ∧
       at_path ["status"] body = Some (VStr "error") ∧
       at_path ["info"; "redis"; "status"] body = Some VUndefined ∧
       at_path ["info"; "redis"; "error"] body
         = Some (get_prop err "message")) ∧
  (∀ ping, Index.statusCode (Index.healthcheck ping w) = 200).
Proof.
  split; [|split].
  - eexists. split; [reflexivity|]. by vm_compute.
  - intros err Herr. eexists. split; [reflexivity|].
    unfold Index.health_body. simpl Index.redisError. unfold js_and.
    rewrite Herr. by vm_compute.
  - intros ping. apply healthcheck_statusCode.
Qed.

Lemma healthcheck_contract_witness :
  truthy connection_error = true ∧
  ∃ body,
    Index.sent (Index.healthcheck (Index.Rejected connection_error) fresh_world)
      = Some body ∧
    at_path ["status"] body = Some (VStr "error") ∧
    at_path ["info"; "redis"; "status"] body = Some VUndefined ∧
    at_path ["info"; "redis"; "error"] body
      = Some (get_prop connection_error "message").
Proof.
  assert (truthy connection_error = true) as Herr by reflexivity.
  split; [exact Herr|].
  exact (proj1 (proj2 (healthcheck_contract fresh_world)) connection_error Herr).
Defined.

(** A rejection is also written to [console.error]. *)
Lemma healthcheck_logs_rejection err w :
  Index.console_error (Index.healthcheck (Index.Rejected err) w) =
  (Index.console_error w ++ [err])%list.
Proof. reflexivity. Qed.

(** A rejection with a falsy reason leaves no [error] key. *)
Lemma healthcheck_falsy_rejection err w :
  truthy err = false →
  ∃ body,
    Index.sent (Index.healthcheck (Index.Rejected err) w) = Some body ∧
    at_path ["info"; "redis"; "error"] body = None.
Proof.
  intros Herr. eexists. split; [reflexivity|].
  unfold Index.health_body. simpl Index.redisError. unfold js_and.
  rewrite Herr. unfold obj_lit. cbn [foldl add_member].
  rewrite (spread_falsy _ _ Herr). by vm_compute.
Qed.

(** C10: a ping that resolves to anything but ["PONG"] gives
    [status: "error"] with [info.redis.status: "down"] and no [error] key,
    with status code 200. *)
Theorem healthcheck_not_pong (v : value) (w : Index.world) :
  strict_eq_str v "PONG" = false →
  Index.statusCode (Index.healthcheck (Index.Resolved v) w) = 200 ∧
  ∃ body,
    Index.sent (Index.healthcheck (Index.Resolved v) w) = Some body ∧
    at_path ["status"] body = Some (VStr "error") ∧
    at_path ["info"; "redis"; "status"] body = Some (VStr "down") ∧
    at_path ["info"; "redis"; "error"] body = None.
Proof.
  intros Hv. split; [apply healthcheck_statusCode|].
  unfold Index.healthcheck, Index.try_ping. rewrite Hv.
  eexists. split; [reflexivity|]. by vm_compute.
Qed.

Lemma healthcheck_not_pong_witness :
  strict_eq_str (VStr "LOADING") "PONG" = false ∧
  Index.statusCode (Index.healthcheck (Index.Resolved (VStr "LOADING")) fresh_world)
    = 200 ∧
  ∃ body,
    Index.sent (Index.healthcheck (Index.Resolved (VStr "LOADING")) fresh_world)
      = Some body ∧
    at_path ["status"] body = Some (VStr "error") ∧
    at_path ["info"; "redis"; "status"] body = Some (VStr "down") ∧
    at_path ["info"; "redis"; "error"] body = None.
Proof.
  assert (strict_eq_str (VStr "LOADING") "PONG" = false) as Hv by reflexivity.
  split; [exact Hv|].
  exact (healthcheck_not_pong (VStr "LOADING") fresh_world Hv).
Defined.

(** ** The bodies of the health check unit tests, in full *)

Example healthcheck_pong_body :
  Index.sent (Index.healthcheck (Index.Resolved (VStr "PONG")) fresh_world) =
  Some (VObj
    {[ "status" := VStr "ok";
       "info" := VObj
         {[ "redis" := VObj
              {[ "status" := VStr "up";
                 "description" := VStr "Based on the Redis PING/PONG system" ]} ]} ]}).
Proof. by vm_compute. Qed.

Example healthcheck_rejected_body :
  Index.sent (Index.healthcheck (Index.Rejected connection_error) fresh_world) =
  Some (VObj
    {[ "status" := VStr "error";
       "info" := VObj
         {[ "redis" := VObj
              {[ "status" := VUndefined;
                 "description" := VStr "Based on the Redis PING/PONG system";
                 "error" := VStr "Redis connection error" ]} ]} ]}).
Proof. by vm_compute. Qed.

(** ** Derived configuration *)

Section DerivedConfiguration.

Implicit Types (env : gmap string string) (p q s : string).

Lemma is_set_var_set env name :
  Config.is_set (env !! name) = true ↔ var_set env name.
Proof.
  unfold Config.is_set, var_set. destruct (env !! name) as [s|].
  - rewrite negb_true_iff, String.eqb_neq. split.
    + intros Hs. by exists s.
    + by intros (? & [= <-] & ?).
  - split; [done|]. by intros (? & ? & _).
Qed.

Lemma normalizePath_spec p :
  trailing_slashes_removed p (Config.normalizePath p).
Proof.
  induction p as [|c rest [Hend [n Hn]]]; [split; [done | by exists 0%nat]|].
  simpl. destruct (Config.normalizePath rest) as [|d kept] eqn:E.
  - simpl in Hn. destruct (Ascii.eqb_spec c "/") as [->|Hc].
    + split; [done|]. exists (S n). simpl. by rewrite Hn.
    + split; [by apply Ascii.eqb_neq | exists n; by rewrite Hn].
  - split; [exact Hend|]. exists n. simpl. by rewrite Hn.
Qed.

Lemma config_HOME_PAGE env :
  get (Config.config env) "HOME_PAGE" = VStr (Config.HOME_PAGE env).
Proof. unfold get, Config.config. by lookup_lit. Qed.

Lemma config_LOGIN_PAGE env :
  get (Config.config env) "LOGIN_PAGE" = VStr (Config.LOGIN_PAGE env).
Proof. unfold get, Config.config. by lookup_lit. Qed.

Lemma config_AUTH_ENABLED env :
  get (Config.config env) "AUTH_ENABLED" = VBool (Config.AUTH_ENABLED env).
Proof. unfold get, Config.config. by lookup_lit. Qed.

End DerivedConfiguration.

(** C4: [AUTH_ENABLED] is [true] exactly when [USER_LOGIN] and
    [USER_PASSWORD] are both set, and [false] as soon as one of them is
    not. *)
Theorem AUTH_ENABLED_iff_both_set (env : gmap string string) :
  (get (Config.config env) "AUTH_ENABLED" = VBool true ↔
   var_set env "USER_LOGIN" ∧ var_set env "USER_PASSWORD") ∧
  (get (Config.config env) "AUTH_ENABLED" = VBool false ↔
   ¬ (var_set env "USER_LOGIN" ∧ var_set env "USER_PASSWORD")).
Proof.
  rewrite config_AUTH_ENABLED, <- !is_set_var_set. unfold Config.AUTH_ENABLED.
  destruct (Config.is_set (env !! "USER_LOGIN")),
           (Config.is_set (env !! "USER_PASSWORD")); simpl;
    intuition congruence.
Qed.

(** With the flag derived this way, the login router is mounted exactly
    when both variables are set. *)
Lemma login_mounted_iff_both_set (env : gmap string string) :
  (VStr (Config.LOGIN_PAGE env), [Index.AuthRouter])
    ∈ Index.auth_routes (Config.config env) ↔
  var_set env "USER_LOGIN" ∧ var_set env "USER_PASSWORD".
Proof.
  unfold Index.auth_routes.
  rewrite config_AUTH_ENABLED, config_LOGIN_PAGE, config_HOME_PAGE.
  rewrite <- !is_set_var_set. unfold Config.AUTH_ENABLED. simpl truthy.
  destruct (Config.is_set (env !! "USER_LOGIN")),
           (Config.is_set (env !! "USER_PASSWORD")); simpl;
    rewrite ?elem_of_cons, ?elem_of_nil; intuition congruence.
Qed.

(** C5: when [PROXY_PATH] is set, [HOME_PAGE] is [PROXY_PATH] without its
    trailing slashes and [LOGIN_PAGE] is that prefix followed by [/login];
    when [PROXY_PATH] is empty or unset they are [/] and [/login]. *)
Theorem pages_from_PROXY_PATH (env : gmap string string) :
  (∀ p, env !! "PROXY_PATH" = Some p → p ≠ EmptyString →
     ∃ q, trailing_slashes_removed p q ∧
          get (Config.config env) "HOME_PAGE" = VStr q ∧
          get (Config.config env) "LOGIN_PAGE" = VStr (q +:+ "/login")) ∧
  (env !! "PROXY_PATH" = None ∨ env !! "PROXY_PATH" = Some EmptyString →
     get (Config.config env) "HOME_PAGE" = VStr "/" ∧
     get (Config.config env) "LOGIN_PAGE" = VStr "/login").
Proof.
  rewrite config_HOME_PAGE, config_LOGIN_PAGE.
  unfold Config.HOME_PAGE, Config.LOGIN_PAGE, Config.PROXY_PATH. split.
  - intros p Hp Hne. exists (Config.normalizePath p).
    split; [apply normalizePath_spec|].
    rewrite Hp. simpl. apply String.eqb_neq in Hne. by rewrite Hne.
  - by intros [-> | ->].
Qed.

Lemma pages_from_PROXY_PATH_witness :
  (∃ q, trailing_slashes_removed "/custom-path/" q ∧
        get (Config.config slash_env) "HOME_PAGE" = VStr q ∧
        get (Config.config slash_env) "LOGIN_PAGE" = VStr (q +:+ "/login")) ∧
  (get (Config.config ∅) "HOME_PAGE" = VStr "/" ∧
   get (Config.config ∅) "LOGIN_PAGE" = VStr "/login").
Proof.
  split.
  - apply (proj1 (pages_from_PROXY_PATH slash_env) "/custom-path/");
      [reflexivity | discriminate].
  - apply (proj2 (pages_from_PROXY_PATH ∅)). left. reflexivity.
Defined.

Example normalized_test_paths :
  get (Config.config slash_env) "HOME_PAGE" = VStr "/custom-path" ∧
  get (Config.config slash_env) "LOGIN_PAGE" = VStr "/custom-path/login" ∧
  get (Config.config {[ "PROXY_PATH" := EmptyString ]}) "HOME_PAGE" = VStr "/" ∧
  get (Config.config {[ "PROXY_PATH" := EmptyString ]}) "LOGIN_PAGE" = VStr "/login".
Proof. by vm_compute. Qed.

(** ** Queue discovery *)

Section QueueDiscovery.

Import Bull.

Variable ver : bull_version.
Variables config redis : gmap string value.
Variable connection : value.
Variable failure : string → nat → option exn.
Variable retries : nat.

Local Abbreviation client := (constructed_queue ver config redis connection).

Lemma connection_key_not_prefix : connection_key ver ≠ "prefix".
Proof. by destruct ver. Qed.

Lemma prefix_key_iff :
  is_Some (queue_options ver config redis !! "prefix") ↔
  prefix_configured config.
Proof.
  unfold queue_options, prefix_option, prefix_configured, obj_lit.
  cbn [foldl add_member].
  destruct (get config "BULL_PREFIX") as [| |b| |n|s|xs|o] eqn:E;
    try (simpl; rewrite lookup_insert_ne, lookup_empty
           by apply connection_key_not_prefix;
         split; [by intros [? ?] | by intros (? & ? & ?)]).
  destruct (String.eqb_spec s EmptyString) as [->|Hs].
  - simpl. rewrite lookup_insert_ne, lookup_empty
      by apply connection_key_not_prefix.
    split; [by intros [? ?] | by intros (? & [= <-] & ?)].
  - rewrite lookup_spread_obj. unfold obj_lit. cbn [foldl add_member].
    rewrite lookup_insert_eq. split; [|by eauto]. intros _. by exists s.
Qed.

Lemma new_queue_inv name k q :
  new_queue ver config redis connection failure name k = Normal q →
  q = client name.
Proof.
  unfold new_queue. destruct (failure name k); [done | by intros [= <-]].
Qed.

Lemma backOff_new_queue_inv name r k q :
  backOff r k (new_queue ver config redis connection failure name)
    = Normal q →
  q = client name.
Proof.
  revert k. induction r as [|r IH]; intros k; simpl;
    destruct (new_queue _ _ _ _ _ name k) eqn:E; try done.
  - intros [= <-]. by eapply new_queue_inv.
  - intros [= <-]. by eapply new_queue_inv.
  - apply IH.
Qed.

(** The retry wrapper returns the client as soon as one of the attempts
    it is allowed goes through. *)
Lemma backOff_new_queue_success name r k j :
  (k ≤ j ≤ k + r)%nat → failure name j = None →
  backOff r k (new_queue ver config redis connection failure name)
    = Normal (client name).
Proof.
  revert k. induction r as [|r IH]; intros k Hj Hnone; simpl.
  - assert (j = k) as -> by lia. unfold new_queue. by rewrite Hnone.
  - unfold new_queue at 1. destruct (failure name k) eqn:E; [|done].
    apply IH; [|done]. assert (j ≠ k) by congruence. lia.
Qed.

Lemma construct_all_clients names errors :
  Forall (λ q, ∃ name, name ∈ names ∧ q = client name)
    (construct_all ver config redis connection failure retries names errors).1.
Proof.
  revert errors. induction names as [|name names IH]; intros errors; simpl.
  - constructor.
  - destruct (backOff _ _ _) as [q|e] eqn:E.
    + specialize (IH errors). destruct (construct_all _ _ _ _ _ _ names errors).
      simpl in *. constructor.
      * exists name. split; [left|]. by eapply backOff_new_queue_inv.
      * eapply Forall_impl; [exact IH|]. intros ? (n & ? & ?).
        exists n. split; [by right | done].
    + eapply Forall_impl; [apply IH|]. intros ? (n & ? & ?).
      exists n. split; [by right | done].
Qed.

Lemma construct_all_success names errors :
  (∀ name, name ∈ names → ∃ j, (j ≤ retries)%nat ∧ failure name j = None) →
  construct_all ver config redis connection failure retries names errors
    = (client <$> names, errors).
Proof.
  induction names as [|name names IH]; intros Hok; simpl; [done|].
  destruct (Hok name) as (j & Hj & Hnone); [left|].
  rewrite (backOff_new_queue_success name retries 0 j) by (done || lia).
  rewrite IH; [done|]. intros n Hn. apply Hok. by right.
Qed.

(** [bullMain] always completes: whatever goes wrong is logged. *)
Lemma bullMain_completes scan b :
  ∃ b', bullMain ver config redis connection failure retries scan b
          = Normal b'.
Proof.
  unfold bullMain. destruct (getBullQueues _ _ _ _ _ _ _ _) as [[qs|e] errs];
    eauto.
Qed.

Lemma bullMain_queues scan b b' :
  bullMain ver config redis connection failure retries scan b = Normal b' →
  queues b' = queues b ∨
  ∃ names : list string,
    Forall (λ q, ∃ name, name ∈ names ∧ q = client name) (queues b').
Proof.
  unfold bullMain, getBullQueues. destruct scan as [keys|e].
  - pose proof (construct_all_clients
                  (remove_dups (queue_name <$> keys)) (log b)) as Hall.
    destruct (construct_all _ _ _ _ _ _ _ _) as [qs errs]. simpl in Hall.
    destruct qs as [|q qs]; intros [= <-]; simpl; [by left|].
    right. by eexists.
  - intros [= <-]. by left.
Qed.

End QueueDiscovery.

(** C6: for both client versions, the options handed to a queue
    constructor have a [prefix] key exactly when [BULL_PREFIX] is a
    non-empty string; with [BULL_PREFIX] undefined, null or empty there is
    no such key.  This holds for every queue that discovery constructs. *)
Theorem prefix_key_iff_configured
    (ver : Bull.bull_version) (config redis : gmap string value) :
  (is_Some (Bull.queue_options ver config redis !! "prefix") ↔
   prefix_configured config) ∧
  (get config "BULL_PREFIX" ∈ [VUndefined; VNull; VStr EmptyString] →
   Bull.queue_options ver config redis !! "prefix" = None) ∧
  (∀ connection failure retries scan b,
     Bull.bullMain ver config redis connection failure retries scan
       Bull.initial_board = Normal b →
     Forall (λ q, is_Some (Bull.q_options q !! "prefix") ↔
                  prefix_configured config)
       (Bull.queues b)).
Proof.
  split; [apply prefix_key_iff|]. split.
  - intros Hin. apply eq_None_not_Some. rewrite prefix_key_iff.
    intros (s & Hs & Hne). rewrite Hs in Hin.
    repeat (apply elem_of_cons in Hin as [Hin|Hin]; [congruence|]).
    by apply elem_of_nil in Hin.
  - intros connection failure retries scan b Hb.
    apply bullMain_queues in Hb as [-> | [names Hall]]; [constructor|].
    eapply Forall_impl; [exact Hall|]. intros q (name & _ & ->).
    apply prefix_key_iff.
Qed.

Lemma prefix_key_iff_configured_witness :
  Bull.queue_options Bull.BULLMQ (bull_test_config VNull) ∅ !! "prefix" = None ∧
  ∃ b,
    Bull.bullMain Bull.BULL (bull_test_config (VStr "test-prefix")) ∅
      (VStr "redis-connection") no_failure 0 (Bull.Keys test_keys)
      Bull.initial_board = Normal b ∧
    Forall (λ q, is_Some (Bull.q_options q !! "prefix") ↔
                 prefix_configured (bull_test_config (VStr "test-prefix")))
      (Bull.queues b).
Proof.
  split.
  - apply (proj1 (proj2 (prefix_key_iff_configured
                           Bull.BULLMQ (bull_test_config VNull) ∅))).
    vm_compute. right. left.
  - eexists. split; [reflexivity|].
    apply (proj2 (proj2 (prefix_key_iff_configured
                           Bull.BULL (bull_test_config (VStr "test-prefix")) ∅))
             (VStr "redis-connection") no_failure 0%nat (Bull.Keys test_keys)).
    reflexivity.
Defined.

(** C7: when every construction goes through within the allowed attempts,
    discovery over the keys [bull:queue1:jobs] and [bull:queue2:jobs]
    registers exactly two clients, named [queue1] and [queue2], and logs
    nothing; over no key at all it completes with no queue and one logged
    error. *)
Theorem discovery_of_test_keys
    (ver : Bull.bull_version) (config redis : gmap string value)
    (connection : value) (failure : string → nat → option exn)
    (retries : nat) :
  (∀ name, name ∈ ["queue1"; "queue2"] →
     ∃ j, (j ≤ retries)%nat ∧ failure name j = None) →
  (∃ q1 q2,
     Bull.bullMain ver config redis connection failure retries
       (Bull.Keys ["bull:queue1:jobs"; "bull:queue2:jobs"]) Bull.initial_board
       = Normal {| Bull.queues := [q1; q2]; Bull.log := [] |} ∧
     Bull.q_name q1 = "queue1" ∧ Bull.q_name q2 = "queue2" ∧ q1 ≠ q2 ∧
     Bull.q_version q1 = ver ∧ Bull.q_version q2 = ver) ∧
  (∃ e,
     Bull.bullMain ver config redis connection failure retries
       (Bull.Keys []) Bull.initial_board
       = Normal {| Bull.queues := []; Bull.log := [e] |}).
Proof.
  intros Hok. split.
  - exists (constructed_queue ver config redis connection "queue1"),
           (constructed_queue ver config redis connection "queue2").
    split; [|by repeat split].
    unfold Bull.bullMain, Bull.getBullQueues.
    change (remove_dups (Bull.queue_name <$>
              ["bull:queue1:jobs"; "bull:queue2:jobs"]))
      with ["queue1"; "queue2"].
    by rewrite construct_all_success.
  - by exists Bull.no_queue_found.
Qed.

Lemma discovery_of_test_keys_witness :
  (∀ name, name ∈ ["queue1"; "queue2"] →
     ∃ j, (j ≤ 9)%nat ∧ no_failure name j = None) ∧
  (∃ q1 q2,
     Bull.bullMain Bull.BULLMQ (bull_test_config (VStr "bull")) ∅
       (VStr "redis-connection") no_failure 9
       (Bull.Keys ["bull:queue1:jobs"; "bull:queue2:jobs"]) Bull.initial_board
       = Normal {| Bull.queues := [q1; q2]; Bull.log := [] |} ∧
     Bull.q_name q1 = "queue1" ∧ Bull.q_name q2 = "queue2" ∧ q1 ≠ q2 ∧
     Bull.q_version q1 = Bull.BULLMQ ∧ Bull.q_version q2 = Bull.BULLMQ) ∧
  (∃ e,
     Bull.bullMain Bull.BULLMQ (bull_test_config (VStr "bull")) ∅
       (VStr "redis-connection") no_failure 9
       (Bull.Keys []) Bull.initial_board
       = Normal {| Bull.queues := []; Bull.log := [e] |}).
Proof.
  assert (∀ name, name ∈ ["queue1"; "queue2"] →
            ∃ j, (j ≤ 9)%nat ∧ no_failure name j = None) as Hok.
  { intros name _. exists 0%nat. split; [lia | reflexivity]. }
  split; [exact Hok|].
  exact (discovery_of_test_keys Bull.BULLMQ (bull_test_config (VStr "bull")) ∅
           (VStr "redis-connection") no_failure 9 Hok).
Defined.

(** A failed key scan is logged as well, and leaves the board as it was. *)
Lemma discovery_scan_failure
    (ver : Bull.bull_version) (config redis : gmap string value)
    (connection : value) (failure : string → nat → option exn)
    (retries : nat) (e : exn) (b : Bull.board) :
  Bull.bullMain ver config redis connection failure retries
    (Bull.ScanFailed e) b
  = Normal {| Bull.queues := Bull.queues b;
              Bull.log := (Bull.log b ++ [e])%list |}.
Proof. reflexivity. Qed.

(** ** Login *)

(** C8: the verification callback of the local strategy is called with
    [(null, {user: 'bull-board'})] when the presented pair is the configured
    one and with [(null, false)] for every other pair; its first argument is
    [null] in every case. *)
Theorem verify_outcomes
    (config : gmap string value) (username password : string) :
  (get config "USER_LOGIN" = VStr username ∧
   get config "USER_PASSWORD" = VStr password →
   Login.verify config username password =
     {| Login.done_err := VNull; Login.done_user := Login.fixed_user |}) ∧
  (¬ (get config "USER_LOGIN" = VStr username ∧
      get config "USER_PASSWORD" = VStr password) →
   Login.verify config username password =
     {| Login.done_err := VNull; Login.done_user := VBool false |}) ∧
  Login.done_err (Login.verify config username password) = VNull ∧
  Login.fixed_user = VObj {[ "user" := VStr "bull-board" ]}.
Proof.
  assert (∀ v s, strict_eq_str v s = true ↔ v = VStr s) as Heq.
  { intros v s. destruct v; simpl; try by split.
    rewrite String.eqb_eq. split; [by intros -> | by intros [= ->]]. }
  unfold Login.verify.
  destruct (strict_eq_str (get config "USER_LOGIN") username) eqn:E1,
           (strict_eq_str (get config "USER_PASSWORD") password) eqn:E2;
    simpl; (split; [|split; [|split]]); try done.
  all: try (intros [H1 H2]; apply Heq in H1, H2; congruence).
  intros []. split; by apply Heq.
Qed.

Lemma verify_outcomes_witness :
  Login.verify login_test_config "admin" "password" =
    {| Login.done_err := VNull; Login.done_user := Login.fixed_user |} ∧
  Login.verify login_test_config "admin" "wrong" =
    {| Login.done_err := VNull; Login.done_user := VBool false |}.
Proof.
  split.
  - apply (proj1 (verify_outcomes login_test_config "admin" "password")).
    split; reflexivity.
  - apply (proj1 (proj2 (verify_outcomes login_test_config "admin" "wrong"))).
    intros [_ H]. vm_compute in H. discriminate H.
Defined.
